(** * FileZilla engine: commands, reply codes and the SFTP chmod operation

    A shallow embedding of [src/include/commands.h] (command identifiers,
    reply codes, the command classes) and of [src/engine/sftp/chmod.cpp]
    (the three-state operation that changes the permissions of a remote
    file), together with the properties the specification states about
    them. *)

From stdpp Require Import base gmap strings list.
From Stdlib Require Import ZArith Lia.

Local Open Scope Z_scope.

(** [std::wstring] and [std::string] values. *)
Abbreviation wstring := string.

(* ===================================================================== *)
(** ** Reply codes ([commands.h], lines 45-68)                            *)
(* ===================================================================== *)

(** The [FZ_REPLY_*] macros are [int] constants; every error category is
    written in the header as its own bit or-ed with [FZ_REPLY_ERROR]. *)

Definition FZ_REPLY_OK : Z := 0x0000.
Definition FZ_REPLY_WOULDBLOCK : Z := 0x0001.
Definition FZ_REPLY_ERROR : Z := 0x0002.
Definition FZ_REPLY_CRITICALERROR : Z := Z.lor 0x0004 FZ_REPLY_ERROR.
Definition FZ_REPLY_CANCELED : Z := Z.lor 0x0008 FZ_REPLY_ERROR.
Definition FZ_REPLY_SYNTAXERROR : Z := Z.lor 0x0010 FZ_REPLY_ERROR.
Definition FZ_REPLY_NOTCONNECTED : Z := Z.lor 0x0020 FZ_REPLY_ERROR.
Definition FZ_REPLY_DISCONNECTED : Z := 0x0040.
Definition FZ_REPLY_INTERNALERROR : Z := Z.lor 0x0080 FZ_REPLY_ERROR.
Definition FZ_REPLY_BUSY : Z := Z.lor 0x0100 FZ_REPLY_ERROR.
Definition FZ_REPLY_ALREADYCONNECTED : Z := Z.lor 0x0200 FZ_REPLY_ERROR.
Definition FZ_REPLY_PASSWORDFAILED : Z := 0x0400.
Definition FZ_REPLY_TIMEOUT : Z := Z.lor 0x0800 FZ_REPLY_ERROR.
Definition FZ_REPLY_NOTSUPPORTED : Z := Z.lor 0x1000 FZ_REPLY_ERROR.
Definition FZ_REPLY_WRITEFAILED : Z := Z.lor 0x2000 FZ_REPLY_ERROR.
Definition FZ_REPLY_LINKNOTDIR : Z := Z.lor 0x4000 FZ_REPLY_ERROR.
Definition FZ_REPLY_CONTINUE : Z := 0x8000.
Definition FZ_REPLY_ERROR_NOTFOUND : Z := Z.lor 0x10000 FZ_REPLY_ERROR.

(** The named categories, one per macro. *)
Inductive ReplyCategory :=
  | cat_ok | cat_wouldblock | cat_error | cat_criticalerror | cat_canceled
  | cat_syntaxerror | cat_notconnected | cat_disconnected | cat_internalerror
  | cat_busy | cat_alreadyconnected | cat_passwordfailed | cat_timeout
  | cat_notsupported | cat_writefailed | cat_linknotdir
  | cat_continue | cat_error_notfound.

Definition category_value (c : ReplyCategory) : Z :=
  match c with
  | cat_ok => FZ_REPLY_OK
  | cat_wouldblock => FZ_REPLY_WOULDBLOCK
  | cat_error => FZ_REPLY_ERROR
  | cat_criticalerror => FZ_REPLY_CRITICALERROR
  | cat_canceled => FZ_REPLY_CANCELED
  | cat_syntaxerror => FZ_REPLY_SYNTAXERROR
  | cat_notconnected => FZ_REPLY_NOTCONNECTED
  | cat_disconnected => FZ_REPLY_DISCONNECTED
  | cat_internalerror => FZ_REPLY_INTERNALERROR
  | cat_busy => FZ_REPLY_BUSY
  | cat_alreadyconnected => FZ_REPLY_ALREADYCONNECTED
  | cat_passwordfailed => FZ_REPLY_PASSWORDFAILED
  | cat_timeout => FZ_REPLY_TIMEOUT
  | cat_notsupported => FZ_REPLY_NOTSUPPORTED
  | cat_writefailed => FZ_REPLY_WRITEFAILED
  | cat_linknotdir => FZ_REPLY_LINKNOTDIR
  | cat_continue => FZ_REPLY_CONTINUE
  | cat_error_notfound => FZ_REPLY_ERROR_NOTFOUND
  end.

(** Modelled from the spec: the header only defines the constants; the
    specification (section 4.1) names the operations on them.  Composition
    is a bitwise OR, "is this an error" tests the generic-error bit and
    "is this a continue" tests the continue bit. *)
Definition combine (a b : Z) : Z := Z.lor a b.

Definition is_error (code : Z) : bool :=
  negb (Z.land code FZ_REPLY_ERROR =? 0).

Definition is_continue (code : Z) : bool :=
  negb (Z.land code FZ_REPLY_CONTINUE =? 0).

(** The OR of the values of a list of categories; the empty composition
    is [FZ_REPLY_OK], the neutral element of OR. *)
Definition compose (cats : list ReplyCategory) : Z :=
  foldr (λ c acc, combine (category_value c) acc) FZ_REPLY_OK cats.

(** The categories the specification (section 3) marks "implies error". *)
Definition implies_error (c : ReplyCategory) : bool :=
  match c with
  | cat_criticalerror | cat_canceled | cat_syntaxerror | cat_notconnected
  | cat_internalerror | cat_busy | cat_alreadyconnected | cat_timeout
  | cat_notsupported | cat_writefailed | cat_linknotdir => true
  | _ => false
  end.

(** The categories whose value carries the generic-error bit: those marked
    "implies error", the generic error itself, and the engine-internal
    not-found code. *)
Definition carries_error (c : ReplyCategory) : bool :=
  match c with
  | cat_error | cat_error_notfound => true
  | _ => implies_error c
  end.

(* ===================================================================== *)
(** ** Command identifiers ([commands.h], lines 14-43)                    *)
(* ===================================================================== *)

(** [enum class Command]: the enumerators are scoped, [Command::list] is
    [Command.list] here. *)
Module Command.
Inductive t :=
  | none | connect | disconnect | list | transfer | del | removedir | mkdir
  | rename | chmod | raw | httprequest
  | sleep | lookup | cwd | common_private1 | common_private2
  | private1 | private2 | private3 | private4 | private5 | private6.

#[global] Instance eq_dec : EqDecision t.
Proof. solve_decision. Defined.
End Command.

(* ===================================================================== *)
(** ** Value types the commands carry                                     *)
(* ===================================================================== *)

(** Modelled from the spec: [server.h], the libfilezilla reader and writer
    factories and [fz::uri] are not among the sources.  The specification
    treats credentials, server addresses and payload handles as external
    value objects; the commands only store and copy them, so each is an
    opaque value here (a holder may be empty). *)
Record CServer := { server_host : wstring }.
Record ServerHandle := { handle_id : Z }.
Record Credentials := { account_name : wstring }.
Record reader_factory_holder := { reader_source : option wstring }.
Record writer_factory_holder := { writer_target : option wstring }.
Record uri := { uri_text : string }.

(** Modelled from the spec: [serverpath.h] is not among the sources.  A
    server path is either unset ([empty()] holds) or an absolute path
    given by its segments; [FormatFilename] yields the file name alone
    when the path is to be omitted and the fully-qualified name, the path
    followed by a separator and the file name, otherwise (scenarios A and
    B of the specification: [/home/u] and [a.txt] give [a.txt] and
    [/home/u/a.txt]).  The [omitPath] argument defaults to [false]. *)
Module CServerPath.
Record t := mk { m_data : option (list wstring) }.

Definition empty (this : t) : bool :=
  match m_data this with None => true | Some _ => false end.

Definition GetPath (this : t) : wstring :=
  match m_data this with
  | None => EmptyString
  | Some [] => "/"
  | Some segments => foldr (λ seg acc, "/" +:+ seg +:+ acc) EmptyString segments
  end.

Definition FormatFilename (this : t) (filename : wstring) (omitPath : bool)
  : wstring :=
  if empty this then filename
  else if omitPath then filename
  else match m_data this with
       | Some [] | None => GetPath this +:+ filename
       | Some _ => GetPath this +:+ "/" +:+ filename
       end.
End CServerPath.

(** [enum class transfer_flags : unsigned short] with the operators the
    header defines on it (lines 172-217). *)
Module transfer_flags.
Definition none : Z := 0.
Definition interface_reserved_mask : Z := 0x08.
Definition download : Z := 0x10.
Definition fsync : Z := 0x20.
Definition protocol_reserved_mask : Z := 0xff00.
Definition protocol_reserved_max : Z := 0x8000.

Definition and (lhs rhs : Z) : bool := negb (Z.land lhs rhs =? 0).
Definition or (lhs rhs : Z) : Z := Z.lor lhs rhs.
Definition minus (lhs rhs : Z) : Z := Z.land (Z.land lhs (Z.lnot rhs)) 0xffff.
Definition not (flags : Z) : bool := flags =? 0.
End transfer_flags.

(* ===================================================================== *)
(** ** The command classes ([commands.h], lines 74-370)                   *)
(* ===================================================================== *)

(** One module per class: the record holds the data members, [copy] is the
    implicitly defined copy constructor (member-wise), the other
    definitions are the member functions whose bodies the header gives. *)

Module CConnectCommand.
Record t := mk {
  server_ : CServer;
  handle_ : ServerHandle;
  credentials_ : Credentials;
  retry_connecting_ : bool }.
Definition GetServer (this : t) := server_ this.
Definition GetHandle (this : t) := handle_ this.
Definition GetCredentials (this : t) := credentials_ this.
Definition RetryConnecting (this : t) := retry_connecting_ this.
Definition copy (other : t) : t :=
  mk (server_ other) (handle_ other) (credentials_ other)
     (retry_connecting_ other).
End CConnectCommand.

Module CListCommand.
Record t := mk {
  m_path : CServerPath.t;
  m_subDir : wstring;
  m_flags : Z }.
Definition GetFlags (this : t) := m_flags this.
Definition copy (other : t) : t :=
  mk (m_path other) (m_subDir other) (m_flags other).
End CListCommand.

Module CFileTransferCommand.
Record t := mk {
  reader_ : reader_factory_holder;
  writer_ : writer_factory_holder;
  m_remotePath : CServerPath.t;
  m_remoteFile : wstring;
  extraFlags_ : wstring;
  persistentState_ : string;
  flags_ : Z }.
Definition Download (this : t) : bool :=
  transfer_flags.and (flags_ this) transfer_flags.download.
Definition GetFlags (this : t) := flags_ this.
Definition GetExtraFlags (this : t) := extraFlags_ this.
Definition GetReader (this : t) := reader_ this.
Definition GetWriter (this : t) := writer_ this.
Definition copy (other : t) : t :=
  mk (reader_ other) (writer_ other) (m_remotePath other)
     (m_remoteFile other) (extraFlags_ other) (persistentState_ other)
     (flags_ other).
End CFileTransferCommand.

(** All data members of [CHttpRequestCommand] are public; [uri_] and
    [verb_] are const, the other three are not and can be assigned. *)
Module CHttpRequestCommand.
Record t := mk {
  uri_ : uri;
  verb_ : string;
  body_ : reader_factory_holder;
  output_ : writer_factory_holder;
  confidential_qs_ : bool }.
Definition copy (other : t) : t :=
  mk (uri_ other) (verb_ other) (body_ other) (output_ other)
     (confidential_qs_ other).
Definition assign_body_ (v : reader_factory_holder) (this : t) : t :=
  mk (uri_ this) (verb_ this) v (output_ this) (confidential_qs_ this).
Definition assign_output_ (v : writer_factory_holder) (this : t) : t :=
  mk (uri_ this) (verb_ this) (body_ this) v (confidential_qs_ this).
Definition assign_confidential_qs_ (v : bool) (this : t) : t :=
  mk (uri_ this) (verb_ this) (body_ this) (output_ this) v.
End CHttpRequestCommand.

Module CRawCommand.
Record t := mk { m_command : wstring }.
Definition valid (this : t) : bool :=
  negb (bool_decide (m_command this = EmptyString)).
Definition copy (other : t) : t := mk (m_command other).

(** The class declares no assignment operator and its one data member is
    not const, so the compiler supplies a public copy assignment, which
    assigns member by member: the command after [this = other]. *)
Definition assign (this other : t) : t := mk (m_command other).
End CRawCommand.

Module CDeleteCommand.
Record t := mk {
  m_path : CServerPath.t;
  files_ : list wstring }.
Definition GetPath (this : t) : CServerPath.t := m_path this.
Definition GetFiles (this : t) : list wstring := files_ this.

(** [ExtractFiles] returns [std::move(files_)]: a cast of the member to an
    rvalue reference.  The call moves nothing; the result designates the
    command's own file list, as it is, and the command afterwards is the
    command before. *)
Definition ExtractFiles (this : t) : list wstring * t :=
  (files_ this, this).

(** Modelled from the spec: the callers of [ExtractFiles] are not among
    the sources.  The specification describes the extraction as moving
    the payload out of the command, once.  A caller does so by
    constructing a vector of its own from the reference; the move
    constructor takes the elements over and leaves the vector it took
    them from, [files_], empty.  [moved_from] is the command after that. *)
Definition moved_from (this : t) : t := mk (m_path this) [].

Definition valid (this : t) : bool :=
  negb (CServerPath.empty (GetPath this))
  && negb (bool_decide (GetFiles this = [])).

Definition copy (other : t) : t := mk (m_path other) (files_ other).
End CDeleteCommand.

Module CRemoveDirCommand.
Record t := mk {
  m_path : CServerPath.t;
  m_subDir : wstring }.
Definition GetPath (this : t) := m_path this.
Definition GetSubDir (this : t) := m_subDir this.
Definition copy (other : t) : t := mk (m_path other) (m_subDir other).
End CRemoveDirCommand.

Module CMkdirCommand.
Record t := mk {
  m_path : CServerPath.t;
  flags_ : Z }.
Definition GetPath (this : t) := m_path this.
Definition GetFlags (this : t) := flags_ this.
Definition copy (other : t) : t := mk (m_path other) (flags_ other).
End CMkdirCommand.

Module CRenameCommand.
Record t := mk {
  m_fromPath : CServerPath.t;
  m_toPath : CServerPath.t;
  m_fromFile : wstring;
  m_toFile : wstring }.
Definition GetFromPath (this : t) := m_fromPath this.
Definition GetToPath (this : t) := m_toPath this.
Definition GetFromFile (this : t) := m_fromFile this.
Definition GetToFile (this : t) := m_toFile this.
Definition copy (other : t) : t :=
  mk (m_fromPath other) (m_toPath other) (m_fromFile other) (m_toFile other).
End CRenameCommand.

Module CChmodCommand.
Record t := mk {
  m_path : CServerPath.t;
  m_file : wstring;
  m_permission : wstring }.
Definition GetPath (this : t) : CServerPath.t := m_path this.
Definition GetFile (this : t) : wstring := m_file this.
Definition GetPermission (this : t) : wstring := m_permission this.
Definition copy (other : t) : t :=
  mk (m_path other) (m_file other) (m_permission other).
End CChmodCommand.

(** [CCommand]: the closed family of classes derived from it through
    [CCommandHelper<Derived, id>].  [BasicCommand id] is [CBasicCommand<id>], which
    has no data members. *)
Inductive CCommand :=
  | BasicCommand (id : Command.t)
  | ConnectCommand (c : CConnectCommand.t)
  | ListCommand (c : CListCommand.t)
  | FileTransferCommand (c : CFileTransferCommand.t)
  | HttpRequestCommand (c : CHttpRequestCommand.t)
  | RawCommand (c : CRawCommand.t)
  | DeleteCommand (c : CDeleteCommand.t)
  | RemoveDirCommand (c : CRemoveDirCommand.t)
  | MkdirCommand (c : CMkdirCommand.t)
  | RenameCommand (c : CRenameCommand.t)
  | ChmodCommand (c : CChmodCommand.t).

(** [CCommandHelper::GetId]: the template argument [id] of the class. *)
Definition GetId (this : CCommand) : Command.t :=
  match this with
  | BasicCommand id => id
  | ConnectCommand _ => Command.connect
  | ListCommand _ => Command.list
  | FileTransferCommand _ => Command.transfer
  | HttpRequestCommand _ => Command.httprequest
  | RawCommand _ => Command.raw
  | DeleteCommand _ => Command.del
  | RemoveDirCommand _ => Command.removedir
  | MkdirCommand _ => Command.mkdir
  | RenameCommand _ => Command.rename
  | ChmodCommand _ => Command.chmod
  end.

(** [CCommandHelper::Clone]: a [new Derived] copy-constructed from the
    object itself, seen as a [Derived const&]; the result is the object
    the copy constructor of the dynamic class builds. *)
Definition Clone (this : CCommand) : CCommand :=
  match this with
  | BasicCommand id => BasicCommand id
  | ConnectCommand c => ConnectCommand (CConnectCommand.copy c)
  | ListCommand c => ListCommand (CListCommand.copy c)
  | FileTransferCommand c => FileTransferCommand (CFileTransferCommand.copy c)
  | HttpRequestCommand c => HttpRequestCommand (CHttpRequestCommand.copy c)
  | RawCommand c => RawCommand (CRawCommand.copy c)
  | DeleteCommand c => DeleteCommand (CDeleteCommand.copy c)
  | RemoveDirCommand c => RemoveDirCommand (CRemoveDirCommand.copy c)
  | MkdirCommand c => MkdirCommand (CMkdirCommand.copy c)
  | RenameCommand c => RenameCommand (CRenameCommand.copy c)
  | ChmodCommand c => ChmodCommand (CChmodCommand.copy c)
  end.

(** Commands live on the free store: [Clone] returns a pointer to a newly
    allocated object.  The store maps addresses to command objects;
    [Clone_alloc h this] is the new pointer and the store after the call,
    and is undefined when [this] does not point to a command. *)
Definition Clone_alloc (h : gmap positive CCommand) (this : positive)
  : option (positive * gmap positive CCommand) :=
  match h !! this with
  | Some c => let p := fresh (dom h) in Some (p, <[p := Clone c]> h)
  | None => None
  end.

(** Ways, found in the header, in which a command object is changed after
    its construction: moving the file list out through the reference
    [ExtractFiles] returns, assignment to the public data members of the
    http-request command that are not const, and the copy assignment the
    compiler supplies for the raw command.  The list is not claimed to be
    complete. *)
Inductive Mutation :=
  | move_files_out
  | assign_body_ (v : reader_factory_holder)
  | assign_output_ (v : writer_factory_holder)
  | assign_confidential_qs_ (v : bool)
  | assign_raw (other : CRawCommand.t).

(** [mutate m c] is the command after [m], or [None] when [m] does not
    apply to the class of [c]. *)
Definition mutate (m : Mutation) (c : CCommand) : option CCommand :=
  match m, c with
  | move_files_out, DeleteCommand d =>
      Some (DeleteCommand (CDeleteCommand.moved_from d))
  | assign_body_ v, HttpRequestCommand r =>
      Some (HttpRequestCommand (CHttpRequestCommand.assign_body_ v r))
  | assign_output_ v, HttpRequestCommand r =>
      Some (HttpRequestCommand (CHttpRequestCommand.assign_output_ v r))
  | assign_confidential_qs_ v, HttpRequestCommand r =>
      Some (HttpRequestCommand (CHttpRequestCommand.assign_confidential_qs_ v r))
  | assign_raw other, RawCommand r =>
      Some (RawCommand (CRawCommand.assign r other))
  | _, _ => None
  end.

(* ===================================================================== *)
(** ** The SFTP chmod operation ([engine/sftp/chmod.cpp])                 *)
(* ===================================================================== *)

(** [enum chmodStates]; [opState] is an [int] compared against them. *)
Definition chmod_init : Z := 0.
Definition chmod_waitcwd : Z := 1.
Definition chmod_chmod : Z := 2.

(** The part of the base class [COpData] the operation uses. *)
Record COpData := { opState : Z }.

Record CSftpChmodOpData := {
  opData :> COpData;
  command_ : CChmodCommand.t;
  useAbsolute_ : bool }.

(** Modelled from the spec: [chmod.h], with the constructor and the member
    initialisers, is not among the sources.  The initial state is the
    first enumerator and paths are relative to the working directory until
    a failed directory change says otherwise. *)
Definition CSftpChmodOpData_new (command : CChmodCommand.t) : CSftpChmodOpData :=
  {| opData := {| opState := chmod_init |};
     command_ := command;
     useAbsolute_ := false |}.

(** Log levels named in the sources. *)
Module logmsg.
Inductive type := status | debug_warning.
End logmsg.

(** Modelled from the spec: [directorycache.h] is not among the sources;
    [CDirectoryCache::unknown] is the attribute state of an entry whose
    cached attributes can no longer be trusted. *)
Module CDirectoryCache.
Inductive Filetype := unknown | file | dir.
End CDirectoryCache.

(** What the operation asks of its collaborators, in the order asked: the
    log sink, the control socket (nested directory change, outbound
    protocol line) and the directory cache of the engine. *)
Inductive Event :=
  | EvLog (level : logmsg.type) (format : string) (args : list wstring)
  | EvChangeDir (path : CServerPath.t)
  | EvUpdateFile (server : CServer) (path : CServerPath.t) (file : wstring)
                 (trusted : bool) (state : CDirectoryCache.Filetype)
  | EvSendCommand (cmd : wstring).

Definition is_status_log (e : Event) : bool :=
  match e with
  | EvLog logmsg.status _ _ => true
  | _ => false
  end.

(** The session the operation runs in: [currentServer_], the result the
    control socket holds for the last reply ([controlSocket_.result_]) and
    the requests made so far. *)
Record Session := {
  currentServer_ : CServer;
  result_ : Z;
  events : list Event }.

Definition emit (e : Event) (s : Session) : Session :=
  {| currentServer_ := currentServer_ s;
     result_ := result_ s;
     events := events s ++ [e] |}.

(** The transport stores the code of the reply it delivers in [result_]
    before the operation is asked to parse the response. *)
Definition deliver (code : Z) (s : Session) : Session :=
  {| currentServer_ := currentServer_ s;
     result_ := code;
     events := events s |}.

(** A member function of the operation: it reads and updates the
    operation's own fields and the session, and returns a value. *)
Definition Op (A : Type) : Type :=
  CSftpChmodOpData → Session → A * CSftpChmodOpData * Session.

#[global] Instance Op_ret : MRet Op := λ A a this s, (a, this, s).
#[global] Instance Op_bind : MBind Op := λ A B k m this s,
  let '(a, this', s') := m this s in k a this' s'.

Definition get_this : Op CSftpChmodOpData := λ this s, (this, this, s).
Definition get_session : Op Session := λ this s, (s, this, s).

Definition set_opState (v : Z) : Op () := λ this s,
  ((), {| opData := {| opState := v |};
          command_ := command_ this;
          useAbsolute_ := useAbsolute_ this |}, s).

Definition set_useAbsolute_ (v : bool) : Op () := λ this s,
  ((), {| opData := opData this;
          command_ := command_ this;
          useAbsolute_ := v |}, s).

Definition log (level : logmsg.type) (format : string) (args : list wstring)
  : Op () := λ this s, ((), this, emit (EvLog level format args) s).

Definition ChangeDir (path : CServerPath.t) : Op () := λ this s,
  ((), this, emit (EvChangeDir path) s).

Definition UpdateFile (server : CServer) (path : CServerPath.t)
    (file : wstring) (trusted : bool) (state : CDirectoryCache.Filetype)
  : Op () := λ this s,
  ((), this, emit (EvUpdateFile server path file trusted state) s).

(** The parts of [CSftpControlSocket] whose code is not among the sources:
    how a file name is quoted for the protocol line, and the code with
    which the socket answers when a line is handed to it. *)
Class CSftpControlSocket := {
  QuoteFilename : wstring → wstring;
  SendCommand_result : Session → wstring → Z }.

Definition SendCommand `{CSftpControlSocket} (cmd : wstring) : Op Z :=
  λ this s, (SendCommand_result s cmd, this, emit (EvSendCommand cmd) s).

(** [CSftpChmodOpData::Send] (lines 15-32). *)
Definition Send `{CSftpControlSocket} : Op Z :=
  this ← get_this;
  let command_ := command_ this in
  if opState this =? chmod_init then
    log logmsg.status "Setting permissions of '%s' to '%s'"
      [CServerPath.FormatFilename (CChmodCommand.GetPath command_)
         (CChmodCommand.GetFile command_) false;
       CChmodCommand.GetPermission command_];;
    ChangeDir (CChmodCommand.GetPath command_);;
    set_opState chmod_waitcwd;;
    mret FZ_REPLY_CONTINUE
  else if opState this =? chmod_chmod then
    s ← get_session;
    UpdateFile (currentServer_ s) (CChmodCommand.GetPath command_)
      (CChmodCommand.GetFile command_) false CDirectoryCache.unknown;;
    let quotedFilename :=
      QuoteFilename
        (CServerPath.FormatFilename (CChmodCommand.GetPath command_)
           (CChmodCommand.GetFile command_) (negb (useAbsolute_ this))) in
    SendCommand ("chmod " +:+ CChmodCommand.GetPermission command_
                 +:+ " " +:+ quotedFilename)
  else mret FZ_REPLY_INTERNALERROR.

(** [CSftpChmodOpData::ParseResponse] (lines 34-37). *)
Definition ParseResponse : Op Z :=
  s ← get_session; mret (result_ s).

(** [CSftpChmodOpData::SubcommandResult] (lines 39-52); the second
    argument, the finished nested operation, is not looked at. *)
Definition SubcommandResult (prevResult : Z) (previous : COpData) : Op Z :=
  this ← get_this;
  if opState (opData this) =? chmod_waitcwd then
    (if negb (prevResult =? FZ_REPLY_OK)
     then set_useAbsolute_ true else mret ());;
    set_opState chmod_chmod;;
    mret FZ_REPLY_CONTINUE
  else mret FZ_REPLY_INTERNALERROR.

(** Modelled from the spec: the driver loop of the engine is not among the
    sources.  For a freshly constructed operation it calls [Send], lets
    the nested directory change run to its reply [prevResult], reports it
    through [SubcommandResult], and calls [Send] again when that returned
    [FZ_REPLY_CONTINUE] (section 2 and section 4.3 of the specification). *)
Definition drive `{CSftpControlSocket} (prevResult : Z) (nested : COpData)
  : Op Z :=
  r1 ← Send;
  if is_continue r1 then
    r2 ← SubcommandResult prevResult nested;
    if is_continue r2 then Send else mret r2
  else mret r1.

(* ===================================================================== *)
(** ** Concrete inputs                                                    *)
(* ===================================================================== *)

(** The double quote character. *)
Definition dquote : Ascii.ascii := Ascii.ascii_of_nat 34.

(** A control socket to run the operation with: a file name is wrapped in
    double quotes and every line handed over is accepted, the reply being
    outstanding. *)
Definition quoting_socket : CSftpControlSocket :=
  {| QuoteFilename := λ f, String dquote (f +:+ String dquote EmptyString);
     SendCommand_result := λ _ _, FZ_REPLY_WOULDBLOCK |}.

(** The request of the specification's scenarios: path [/home/u], file
    [a.txt], permission [755]. *)
Definition home_u : CServerPath.t := CServerPath.mk (Some ["home"; "u"]).

Definition scenario_command : CChmodCommand.t :=
  CChmodCommand.mk home_u "a.txt" "755".

Definition scenario_session : Session :=
  {| currentServer_ := {| server_host := "sftp.example.org" |};
     result_ := FZ_REPLY_OK;
     events := [] |}.

Definition at_state (v : Z) (this : CSftpChmodOpData) : CSftpChmodOpData :=
  {| opData := {| opState := v |};
     command_ := command_ this;
     useAbsolute_ := useAbsolute_ this |}.

(** A delete command for two files in [/home/u], and one whose path was
    never set. *)
Definition scenario_delete : CDeleteCommand.t :=
  CDeleteCommand.mk home_u ["a.txt"; "b.txt"].

Definition pathless_delete : CDeleteCommand.t :=
  CDeleteCommand.mk (CServerPath.mk None) ["a.txt"].




(* ===================================================================== *)
(** ** List flags ([commands.h], lines 131-135)                           *)
(* ===================================================================== *)

Definition LIST_FLAG_REFRESH : Z := 1.
Definition LIST_FLAG_AVOID : Z := 2.
Definition LIST_FLAG_FALLBACK_CURRENT : Z := 4.
Definition LIST_FLAG_LINK : Z := 8.
Definition LIST_FLAG_CLEARCACHE : Z := 16.

Inductive ListFlag :=
  | flag_refresh | flag_avoid | flag_fallback_current | flag_link
  | flag_clearcache.

Definition list_flag_value (f : ListFlag) : Z :=
  match f with
  | flag_refresh => LIST_FLAG_REFRESH
  | flag_avoid => LIST_FLAG_AVOID
  | flag_fallback_current => LIST_FLAG_FALLBACK_CURRENT
  | flag_link => LIST_FLAG_LINK
  | flag_clearcache => LIST_FLAG_CLEARCACHE
  end.

(** The [flags] argument of a list command, built by or-ing flags
    together, and the test [GetFlags() & LIST_FLAG_...] on the command. *)
Definition list_flags (fs : list ListFlag) : Z :=
  foldr (λ f acc, Z.lor (list_flag_value f) acc) 0 fs.

Definition has_list_flag (c : CListCommand.t) (f : ListFlag) : bool :=
  negb (Z.land (CListCommand.GetFlags c) (list_flag_value f) =? 0).

(** The values an [unsigned short] holds. *)
Definition is_unsigned_short (v : Z) : Prop := 0 ≤ v < 65536.

(* ===================================================================== *)
(** ** Sequences of calls into the chmod operation                        *)
(* ===================================================================== *)

(** The three member functions through which the engine calls into the
    operation. *)
Inductive Call :=
  | CallSend
  | CallParseResponse
  | CallSubcommandResult (prevResult : Z) (previous : COpData).

Definition call `{CSftpControlSocket} (c : Call) : Op Z :=
  match c with
  | CallSend => Send
  | CallParseResponse => ParseResponse
  | CallSubcommandResult prevResult previous =>
      SubcommandResult prevResult previous
  end.

(** The operation and the session after the calls [cs], made in order. *)
Fixpoint after_calls `{CSftpControlSocket} (cs : list Call)
    (this : CSftpChmodOpData) (s : Session) : CSftpChmodOpData * Session :=
  match cs with
  | [] => (this, s)
  | c :: cs => let '(_, this', s') := call c this s in after_calls cs this' s'
  end.

(** The requests [Send] makes, named: the status message and the nested
    directory change of the init state, the cache update and the protocol
    line of the chmod state. *)
Definition chmod_notice (command : CChmodCommand.t) : Event :=
  EvLog logmsg.status "Setting permissions of '%s' to '%s'"
    [CServerPath.FormatFilename (CChmodCommand.GetPath command)
       (CChmodCommand.GetFile command) false;
     CChmodCommand.GetPermission command].

Definition chmod_invalidate (server : CServer) (command : CChmodCommand.t)
  : Event :=
  EvUpdateFile server (CChmodCommand.GetPath command)
    (CChmodCommand.GetFile command) false CDirectoryCache.unknown.

Definition chmod_line `{CSftpControlSocket} (command : CChmodCommand.t)
    (useAbsolute : bool) : wstring :=
  "chmod " +:+ CChmodCommand.GetPermission command +:+ " "
  +:+ QuoteFilename
        (CServerPath.FormatFilename (CChmodCommand.GetPath command)
           (CChmodCommand.GetFile command) (negb useAbsolute)).

Definition is_change_dir (e : Event) : bool :=
  match e with EvChangeDir _ => true | _ => false end.

(** The requests of an operation that has got as far as [this], [n] being
    the number of times the protocol line was handed to the socket: none
    in the init state; afterwards the status message and the directory
    change, followed by [n] times the cache update and the line. *)
Definition chmod_requests `{CSftpControlSocket} (server : CServer)
    (this : CSftpChmodOpData) (n : nat) : list Event :=
  if opState this =? chmod_init then []
  else [chmod_notice (command_ this);
        EvChangeDir (CChmodCommand.GetPath (command_ this))]
       ++ concat (replicate n
                    [chmod_invalidate server (command_ this);
                     EvSendCommand
                       (chmod_line (command_ this) (useAbsolute_ this))]).

(* ===================================================================== *)
(** ** Properties of the reply codes                                      *)
(* ===================================================================== *)

Lemma is_error_combine (a b : Z) :
  is_error (combine a b) = is_error a || is_error b.
Proof.
  unfold is_error, combine.
  rewrite Z.land_lor_distr_l.
  destruct (Z.eqb_spec (Z.land a FZ_REPLY_ERROR) 0) as [Ha|Ha];
    destruct (Z.eqb_spec (Z.land b FZ_REPLY_ERROR) 0) as [Hb|Hb];
    destruct (Z.eqb_spec (Z.lor (Z.land a FZ_REPLY_ERROR)
                                (Z.land b FZ_REPLY_ERROR)) 0) as [Hab|Hab];
    try reflexivity; exfalso.
  - apply Hab. rewrite Ha, Hb. reflexivity.
  - apply Z.lor_eq_0_iff in Hab. tauto.
  - apply Z.lor_eq_0_iff in Hab. tauto.
  - apply Z.lor_eq_0_iff in Hab. tauto.
Qed.

Lemma is_error_category (c : ReplyCategory) :
  is_error (category_value c) = carries_error c.
Proof. destruct c; reflexivity. Qed.

Lemma is_error_compose (cats : list ReplyCategory) :
  is_error (compose cats) = existsb carries_error cats.
Proof.
  induction cats as [|c cats IH]; [reflexivity|].
  cbn [compose foldr existsb]. fold (compose cats).
  rewrite is_error_combine, IH, is_error_category. reflexivity.
Qed.

(** C3, as stated, fails: the composition made of the generic-error
    category alone has the generic-error bit set, and so has the one made
    of the internal not-found code alone, yet neither contains a category
    marked "implies error". *)
Lemma C3_error_bit_without_marked_category :
  (is_error (compose [cat_error]) = true
   ∧ existsb implies_error [cat_error] = false)
  ∧ (is_error (compose [cat_error_notfound]) = true
     ∧ existsb implies_error [cat_error_notfound] = false).
Proof. repeat split. Qed.

(** C3 (amended): every category marked "implies error" has the
    generic-error bit set in its value (indeed the bit is set exactly in
    the values of those categories, of the generic error and of the
    internal not-found code), and for every composition of category values
    by bitwise OR the is-error test is true exactly when at least one
    composed category is marked "implies error", is the generic error
    itself or is the internal not-found code. *)
Theorem C3_error_bit_of_compositions :
  (∀ c, Z.land (category_value c) FZ_REPLY_ERROR
        = if carries_error c then FZ_REPLY_ERROR else 0)
  ∧ (∀ c, implies_error c = true → is_error (category_value c) = true)
  ∧ (∀ cats, is_error (compose cats) = true
             ↔ ∃ c, c ∈ cats
                    ∧ (implies_error c = true ∨ c = cat_error
                       ∨ c = cat_error_notfound)).
Proof.
  split; [|split].
  - intros c. destruct c; reflexivity.
  - intros c Hc. rewrite is_error_category.
    destruct c; try reflexivity; discriminate Hc.
  - intros cats. rewrite is_error_compose, existsb_exists. split.
    + intros (c & Hin & Hc). exists c. split; [by apply list_elem_of_In|].
      destruct c; cbn in Hc |- *; try discriminate Hc; auto.
    + intros (c & Hin & Hc). exists c. split; [by apply list_elem_of_In|].
      destruct Hc as [Hc|[->| ->]]; [|reflexivity..].
      destruct c; try reflexivity; discriminate Hc.
Qed.

(* ===================================================================== *)
(** ** Properties of the command model                                    *)
(* ===================================================================== *)

Lemma Clone_same_value (c : CCommand) : Clone c = c.
Proof. destruct c as [id|c|c|c|c|c|c|c|c|c|c]; try destruct c; reflexivity. Qed.

Lemma GetId_Clone (c : CCommand) : GetId (Clone c) = GetId c.
Proof. destruct c; reflexivity. Qed.

Lemma Clone_alloc_unused (h : gmap positive CCommand) :
  h !! fresh (dom h) = None.
Proof. apply not_elem_of_dom, is_fresh. Qed.

Lemma mutate_keeps_kind (m : Mutation) (c c' : CCommand) :
  mutate m c = Some c' → GetId c' = GetId c.
Proof. destruct m, c; intros [= <-]; reflexivity. Qed.



(** C9: [Clone] on a command in the store yields a pointer to a new
    object, distinct from the original, holding a copy of the same value
    and so of the same kind; the original is left as it was, and whatever
    is later written to the clone, the original keeps its value. *)
Theorem C9_clone_is_independent
    (h : gmap positive CCommand) (this : positive) (c : CCommand) :
  h !! this = Some c →
  ∃ p h', Clone_alloc h this = Some (p, h')
          ∧ p ≠ this
          ∧ h' !! p = Some c
          ∧ GetId <$> h' !! p = Some (GetId c)
          ∧ h' !! this = Some c
          ∧ (∀ q, q ≠ p → h' !! q = h !! q)
          ∧ (∀ c', <[p := c']> h' !! this = Some c)
          ∧ (∀ m c', mutate m (Clone c) = Some c' →
                     <[p := c']> h' !! this = Some c
                     ∧ <[p := c']> h' !! p = Some c').
Proof.
  intros Hthis.
  assert (Hp : fresh (dom h) ≠ this).
  { intros Heq. pose proof (Clone_alloc_unused h) as Hnone.
    rewrite Heq, Hthis in Hnone. discriminate Hnone. }
  exists (fresh (dom h)), (<[fresh (dom h) := Clone c]> h).
  unfold Clone_alloc. rewrite Hthis. cbn zeta.
  split; [reflexivity|]. split; [exact Hp|].
  rewrite lookup_insert_eq, Clone_same_value.
  split; [reflexivity|]. split; [reflexivity|].
  split; [by rewrite lookup_insert_ne|].
  split; [by intros q Hq; rewrite lookup_insert_ne|].
  split.
  - intros c'. by rewrite insert_insert_eq, lookup_insert_ne.
  - intros m c' _. rewrite insert_insert_eq, lookup_insert_eq.
    by rewrite lookup_insert_ne.
Qed.

Lemma C9_clone_is_independent_witness :
  ({[ 1%positive := DeleteCommand scenario_delete ]} : gmap positive CCommand)
    !! 1%positive = Some (DeleteCommand scenario_delete)
  ∧ ∃ p h',
      Clone_alloc {[ 1%positive := DeleteCommand scenario_delete ]} 1%positive
      = Some (p, h')
      ∧ p ≠ 1%positive
      ∧ h' !! p = Some (DeleteCommand scenario_delete)
      ∧ GetId <$> h' !! p = Some (GetId (DeleteCommand scenario_delete))
      ∧ h' !! 1%positive = Some (DeleteCommand scenario_delete)
      ∧ (∀ q, q ≠ p →
              h' !! q
              = ({[ 1%positive := DeleteCommand scenario_delete ]}
                   : gmap positive CCommand) !! q)
      ∧ (∀ c', <[p := c']> h' !! 1%positive
               = Some (DeleteCommand scenario_delete))
      ∧ (∀ m c', mutate m (Clone (DeleteCommand scenario_delete)) = Some c' →
                 <[p := c']> h' !! 1%positive
                 = Some (DeleteCommand scenario_delete)
                 ∧ <[p := c']> h' !! p = Some c').
Proof.
  split; [reflexivity|].
  apply (C9_clone_is_independent
           {[ 1%positive := DeleteCommand scenario_delete ]} 1%positive
           (DeleteCommand scenario_delete)).
  reflexivity.
Defined.

(** C10, as stated, fails: calling [ExtractFiles] does not empty the file
    list.  After the call the scenario's delete command has its two files
    and is valid as before.  Besides, a non-empty file list does not make
    a delete command valid when the path was never set. *)
Lemma C10_call_leaves_the_files :
  (CDeleteCommand.GetFiles
     (snd (CDeleteCommand.ExtractFiles scenario_delete))
   = ["a.txt"; "b.txt"]
   ∧ CDeleteCommand.valid (snd (CDeleteCommand.ExtractFiles scenario_delete))
     = true)
  ∧ (CDeleteCommand.GetFiles pathless_delete ≠ []
     ∧ CDeleteCommand.valid pathless_delete = false).
Proof. repeat split. intros [=]. Qed.

(** C10 (amended): for every delete command, calling [ExtractFiles]
    changes nothing: it yields the command's file list, and after the
    call the file list and the result of [valid()] are what they were,
    [valid()] being true exactly when path and file list are both
    non-empty; a clone taken then is the same command again.  It is the
    moving out of the list by the caller that leaves the command without
    files: then [valid()] returns false, whatever it returned before, a
    command that was admitted as valid has become invalid, and a clone
    taken afterwards is a delete command that is invalid as well. *)
Theorem C10_moving_out_invalidates_not_the_call (d : CDeleteCommand.t) :
  (fst (CDeleteCommand.ExtractFiles d) = CDeleteCommand.GetFiles d
   ∧ snd (CDeleteCommand.ExtractFiles d) = d
   ∧ CDeleteCommand.valid (snd (CDeleteCommand.ExtractFiles d))
     = CDeleteCommand.valid d
   ∧ Clone (DeleteCommand (snd (CDeleteCommand.ExtractFiles d)))
     = DeleteCommand d)
  ∧ (CDeleteCommand.valid d = true
     ↔ CServerPath.empty (CDeleteCommand.GetPath d) = false
       ∧ CDeleteCommand.GetFiles d ≠ [])
  ∧ (CDeleteCommand.GetFiles (CDeleteCommand.moved_from d) = []
     ∧ CDeleteCommand.valid (CDeleteCommand.moved_from d) = false
     ∧ ∃ dc, Clone (DeleteCommand (CDeleteCommand.moved_from d))
             = DeleteCommand dc
             ∧ CDeleteCommand.GetFiles dc = []
             ∧ CDeleteCommand.valid dc = false).
Proof.
  destruct d as [path files].
  assert (Hinvalid : CDeleteCommand.valid (CDeleteCommand.mk path []) = false).
  { unfold CDeleteCommand.valid. cbn. by rewrite andb_false_r. }
  split; [|split].
  - repeat split.
  - unfold CDeleteCommand.valid. cbn.
    rewrite andb_true_iff, !negb_true_iff, bool_decide_eq_false. reflexivity.
  - cbn. split; [reflexivity|]. split; [exact Hinvalid|].
    exists (CDeleteCommand.mk path []). repeat split. exact Hinvalid.
Qed.

(* ===================================================================== *)
(** ** Properties of the chmod operation                                  *)
(* ===================================================================== *)

(** Unfolds the member functions down to the triple they compute. *)
Ltac run_op :=
  unfold drive;
  unfold Send, SubcommandResult, ParseResponse, SendCommand,
    UpdateFile, ChangeDir, log, set_opState, set_useAbsolute_, get_this,
    get_session, mbind, mret, Op_bind, Op_ret;
  cbn beta iota zeta.

Lemma length_append (a b : string) :
  String.length (a +:+ b) = (String.length a + String.length b)%nat.
Proof.
  induction a as [|ch a IH]; [reflexivity|].
  cbn [String.length]. rewrite Nat.add_succ_l, <- IH. reflexivity.
Qed.

Lemma GetPath_of_segments (seg : wstring) (segments : list wstring) :
  (0 < String.length
         (CServerPath.GetPath (CServerPath.mk (Some (seg :: segments)))))%nat.
Proof.
  unfold CServerPath.GetPath. cbn [CServerPath.m_data foldr].
  rewrite length_append. cbn [String.length]. lia.
Qed.

(** With the path set, the fully-qualified name is longer than the file
    name and so differs from it. *)
Lemma FormatFilename_qualified_differs (path : CServerPath.t) (file : wstring) :
  CServerPath.empty path = false →
  CServerPath.FormatFilename path file false ≠ file.
Proof.
  destruct path as [[segments|]]; [|discriminate]. intros _ Heq.
  apply (f_equal String.length) in Heq. revert Heq.
  unfold CServerPath.FormatFilename. cbn [CServerPath.empty CServerPath.m_data].
  destruct segments as [|seg segments].
  - rewrite length_append. cbn. lia.
  - rewrite !length_append.
    pose proof (GetPath_of_segments seg segments). lia.
Qed.

Lemma FormatFilename_omitPath (path : CServerPath.t) (file : wstring) :
  CServerPath.FormatFilename path file true = file.
Proof. unfold CServerPath.FormatFilename. by destruct (CServerPath.empty path). Qed.

Lemma FZ_REPLY_CONTINUE_is_continue :
  is_continue FZ_REPLY_CONTINUE = true ∧ is_error FZ_REPLY_CONTINUE = false.
Proof. split; reflexivity. Qed.

(** C1: in the waitcwd state, a nested directory change that ended with
    any code other than [FZ_REPLY_OK] does not end the operation with an
    error: [SubcommandResult] sets [useAbsolute_], moves to the chmod state
    and returns [FZ_REPLY_CONTINUE], which carries no error bit; it asks
    nothing of the collaborators. *)
Theorem C1_failed_cwd_downgrades_addressing
    (this : CSftpChmodOpData) (s : Session) (prevResult : Z)
    (nested : COpData) :
  opState this = chmod_waitcwd →
  prevResult ≠ FZ_REPLY_OK →
  SubcommandResult prevResult nested this s
  = (FZ_REPLY_CONTINUE,
     {| opData := {| opState := chmod_chmod |};
        command_ := command_ this;
        useAbsolute_ := true |},
     s)
  ∧ is_error FZ_REPLY_CONTINUE = false.
Proof.
  intros Hstate Hprev. split; [|reflexivity].
  run_op. rewrite Hstate. cbn.
  destruct (Z.eqb_spec prevResult FZ_REPLY_OK) as [Heq|_]; [by destruct Hprev|].
  reflexivity.
Qed.

Lemma C1_failed_cwd_downgrades_addressing_witness :
  SubcommandResult FZ_REPLY_ERROR {| opState := chmod_init |}
    (at_state chmod_waitcwd (CSftpChmodOpData_new scenario_command))
    scenario_session
  = (FZ_REPLY_CONTINUE,
     {| opData := {| opState := chmod_chmod |};
        command_ := scenario_command;
        useAbsolute_ := true |},
     scenario_session)
  ∧ is_error FZ_REPLY_CONTINUE = false.
Proof.
  apply (C1_failed_cwd_downgrades_addressing
           (at_state chmod_waitcwd (CSftpChmodOpData_new scenario_command))
           scenario_session FZ_REPLY_ERROR {| opState := chmod_init |}).
  - reflexivity.
  - vm_compute. discriminate.
Defined.

(** C4: driven from its construction, the operation always hands the
    permission-change line to the transport, whatever the nested directory
    change replied.  The file is addressed by its name alone when that
    reply was [FZ_REPLY_OK], and by the fully-qualified name otherwise;
    for a command whose path is set, the line addresses the bare file name
    if and only if the reply was [FZ_REPLY_OK]. *)
Theorem C4_addressing_follows_cwd_result `{CSftpControlSocket}
    (command : CChmodCommand.t) (s : Session) (prevResult : Z)
    (nested : COpData) :
  let path := CChmodCommand.GetPath command in
  let file := CChmodCommand.GetFile command in
  let absolute := negb (prevResult =? FZ_REPLY_OK) in
  let target := CServerPath.FormatFilename path file (negb absolute) in
  let line := "chmod " +:+ CChmodCommand.GetPermission command +:+ " "
              +:+ QuoteFilename target in
  let cached := emit (EvUpdateFile (currentServer_ s) path file false
                        CDirectoryCache.unknown)
                  (emit (EvChangeDir path)
                     (emit (EvLog logmsg.status
                              "Setting permissions of '%s' to '%s'"
                              [CServerPath.FormatFilename path file false;
                               CChmodCommand.GetPermission command]) s)) in
  drive prevResult nested (CSftpChmodOpData_new command) s
  = (SendCommand_result cached line,
     {| opData := {| opState := chmod_chmod |};
        command_ := command;
        useAbsolute_ := absolute |},
     emit (EvSendCommand line) cached)
  ∧ (prevResult = FZ_REPLY_OK → target = file)
  ∧ (prevResult ≠ FZ_REPLY_OK →
     target = CServerPath.FormatFilename path file false)
  ∧ (CServerPath.empty path = false →
     (target = file ↔ prevResult = FZ_REPLY_OK)).
Proof.
  intros path file absolute target line cached.
  assert (Hok : prevResult = FZ_REPLY_OK → target = file).
  { intros ->. apply FormatFilename_omitPath. }
  assert (Hfail : prevResult ≠ FZ_REPLY_OK →
                  target = CServerPath.FormatFilename path file false).
  { intros Hne. subst target absolute.
    destruct (Z.eqb_spec prevResult FZ_REPLY_OK); [contradiction|reflexivity]. }
  split; [|split; [exact Hok|split; [exact Hfail|]]].
  - clear Hok Hfail. subst cached line target absolute. run_op. cbn.
    destruct (prevResult =? FZ_REPLY_OK); reflexivity.
  - intros Hpath. split; [|exact Hok].
    intros Htarget. destruct (Z.eq_dec prevResult FZ_REPLY_OK) as [|Hne];
      [assumption|].
    rewrite (Hfail Hne) in Htarget.
    by apply FormatFilename_qualified_differs in Htarget.
Qed.

(** Scenarios A and B of the specification, run on the quoting socket. *)
Example scenario_A_relative :
  events (snd (@drive quoting_socket FZ_REPLY_OK {| opState := chmod_init |}
                 (CSftpChmodOpData_new scenario_command) scenario_session))
  = [EvLog logmsg.status "Setting permissions of '%s' to '%s'"
       ["/home/u/a.txt"; "755"];
     EvChangeDir home_u;
     EvUpdateFile (currentServer_ scenario_session) home_u "a.txt" false
       CDirectoryCache.unknown;
     EvSendCommand
       ("chmod 755 " +:+ String dquote ("a.txt" +:+ String dquote EmptyString))].
Proof. reflexivity. Qed.

Example scenario_B_absolute :
  events (snd (@drive quoting_socket FZ_REPLY_ERROR {| opState := chmod_init |}
                 (CSftpChmodOpData_new scenario_command) scenario_session))
  = [EvLog logmsg.status "Setting permissions of '%s' to '%s'"
       ["/home/u/a.txt"; "755"];
     EvChangeDir home_u;
     EvUpdateFile (currentServer_ scenario_session) home_u "a.txt" false
       CDirectoryCache.unknown;
     EvSendCommand
       ("chmod 755 "
        +:+ String dquote ("/home/u/a.txt" +:+ String dquote EmptyString))].
Proof. reflexivity. Qed.

(** C5, as stated, fails: not every call outside the protocol reports an
    internal error.  A second [Send] in the chmod state hands the line to
    the socket again and returns the socket's answer, and [ParseResponse]
    on a newly constructed operation returns the stored reply. *)
Lemma C5_second_send_and_early_parse :
  let this := at_state chmod_chmod (CSftpChmodOpData_new scenario_command) in
  let once := (@Send quoting_socket this scenario_session).2 in
  ((@Send quoting_socket this once).1.1 = FZ_REPLY_WOULDBLOCK
   ∧ (@Send quoting_socket this once).1.1 ≠ FZ_REPLY_INTERNALERROR
   ∧ length (events once) = 2%nat
   ∧ length (events (@Send quoting_socket this once).2) = 4%nat)
  ∧ ((ParseResponse (CSftpChmodOpData_new scenario_command)
        scenario_session).1.1 = FZ_REPLY_OK
     ∧ (ParseResponse (CSftpChmodOpData_new scenario_command)
          scenario_session).1.1 ≠ FZ_REPLY_INTERNALERROR).
Proof. repeat split; discriminate. Qed.

(** C5 (amended): [Send] called in the waitcwd state (and in every state
    other than init and chmod) and [SubcommandResult] called in every
    state other than waitcwd report an internal error and change
    nothing.  The other calls outside the protocol do not: in every state
    [ParseResponse] returns the stored reply, and [Send] in the chmod
    state, however often it is called there, updates the cache, hands the
    line to the socket and returns the socket's answer. *)
Theorem C5_out_of_protocol_steps_report_internal_error
    `{CSftpControlSocket} (this : CSftpChmodOpData) (s : Session)
    (prevResult : Z) (nested : COpData) :
  (opState this = chmod_waitcwd →
   Send this s = (FZ_REPLY_INTERNALERROR, this, s))
  ∧ (opState this ≠ chmod_init → opState this ≠ chmod_chmod →
     Send this s = (FZ_REPLY_INTERNALERROR, this, s))
  ∧ (opState this ≠ chmod_waitcwd →
     SubcommandResult prevResult nested this s
     = (FZ_REPLY_INTERNALERROR, this, s))
  ∧ is_error FZ_REPLY_INTERNALERROR = true
  ∧ ParseResponse this s = (result_ s, this, s)
  ∧ (opState this = chmod_chmod →
     Send this s
     = (SendCommand_result
          (emit (chmod_invalidate (currentServer_ s) (command_ this)) s)
          (chmod_line (command_ this) (useAbsolute_ this)),
        this,
        emit (EvSendCommand (chmod_line (command_ this) (useAbsolute_ this)))
          (emit (chmod_invalidate (currentServer_ s) (command_ this)) s))).
Proof.
  assert (Hsend : opState this ≠ chmod_init → opState this ≠ chmod_chmod →
                  Send this s = (FZ_REPLY_INTERNALERROR, this, s)).
  { intros Hinit Hchmod. run_op.
    destruct (Z.eqb_spec (opState this) chmod_init); [contradiction|].
    destruct (Z.eqb_spec (opState this) chmod_chmod); [contradiction|].
    reflexivity. }
  split; [|split; [exact Hsend|split; [|split; [reflexivity|split]]]].
  - intros Hstate. apply Hsend; rewrite Hstate; discriminate.
  - intros Hstate. run_op.
    destruct (Z.eqb_spec (opState this) chmod_waitcwd); [contradiction|].
    reflexivity.
  - reflexivity.
  - intros Hstate. run_op. rewrite Hstate. reflexivity.
Qed.

Lemma C5_out_of_protocol_steps_report_internal_error_witness :
  @Send quoting_socket
    (at_state chmod_waitcwd (CSftpChmodOpData_new scenario_command))
    scenario_session
  = (FZ_REPLY_INTERNALERROR,
     at_state chmod_waitcwd (CSftpChmodOpData_new scenario_command),
     scenario_session)
  ∧ SubcommandResult FZ_REPLY_OK {| opState := chmod_init |}
      (at_state chmod_chmod (CSftpChmodOpData_new scenario_command))
      scenario_session
    = (FZ_REPLY_INTERNALERROR,
       at_state chmod_chmod (CSftpChmodOpData_new scenario_command),
       scenario_session)
  ∧ SubcommandResult FZ_REPLY_ERROR {| opState := chmod_init |}
      (CSftpChmodOpData_new scenario_command) scenario_session
    = (FZ_REPLY_INTERNALERROR, CSftpChmodOpData_new scenario_command,
       scenario_session).
Proof.
  split; [|split].
  - apply (proj1 (@C5_out_of_protocol_steps_report_internal_error
                    quoting_socket
                    (at_state chmod_waitcwd
                       (CSftpChmodOpData_new scenario_command))
                    scenario_session FZ_REPLY_OK {| opState := chmod_init |})).
    reflexivity.
  - apply (proj1 (proj2 (proj2
             (@C5_out_of_protocol_steps_report_internal_error
                quoting_socket
                (at_state chmod_chmod (CSftpChmodOpData_new scenario_command))
                scenario_session FZ_REPLY_OK {| opState := chmod_init |})))).
    vm_compute. discriminate.
  - apply (proj1 (proj2 (proj2
             (@C5_out_of_protocol_steps_report_internal_error
                quoting_socket (CSftpChmodOpData_new scenario_command)
                scenario_session FZ_REPLY_ERROR
                {| opState := chmod_init |})))).
    vm_compute. discriminate.
Defined.

(** C6: whatever code the transport delivers for the reply,
    [ParseResponse] returns that code and changes nothing, in every state
    of the operation; the critical-error code comes back as it is. *)
Theorem C6_response_passes_through
    (this : CSftpChmodOpData) (s : Session) (code : Z) :
  ParseResponse this (deliver code s) = (code, this, deliver code s)
  ∧ ParseResponse this (deliver FZ_REPLY_CRITICALERROR s)
    = (FZ_REPLY_CRITICALERROR, this, deliver FZ_REPLY_CRITICALERROR s)
  ∧ ParseResponse this s = (result_ s, this, s).
Proof. repeat split. Qed.

(** C7: in the chmod state, [Send] first asks the directory cache to
    update the entry of the command's path and file with [false] and
    [CDirectoryCache::unknown], and only then hands the permission-change
    line to the transport; these are the two requests it makes, in this
    order, and the state stays chmod. *)
Theorem C7_cache_is_invalidated_before_sending `{CSftpControlSocket}
    (this : CSftpChmodOpData) (s : Session) :
  opState this = chmod_chmod →
  let path := CChmodCommand.GetPath (command_ this) in
  let file := CChmodCommand.GetFile (command_ this) in
  let line := "chmod " +:+ CChmodCommand.GetPermission (command_ this)
              +:+ " " +:+ QuoteFilename
                            (CServerPath.FormatFilename path file
                               (negb (useAbsolute_ this))) in
  let invalidate := EvUpdateFile (currentServer_ s) path file false
                      CDirectoryCache.unknown in
  ∃ reply s', Send this s = (reply, this, s')
              ∧ reply = SendCommand_result (emit invalidate s) line
              ∧ events s' = events s ++ [invalidate; EvSendCommand line]
              ∧ result_ s' = result_ s
              ∧ currentServer_ s' = currentServer_ s.
Proof.
  intros Hstate path file line invalidate.
  eexists _, _. split.
  - run_op. rewrite Hstate. cbn. reflexivity.
  - cbn. rewrite <- app_assoc. repeat split.
Qed.

Lemma C7_cache_is_invalidated_before_sending_witness :
  ∃ reply s',
    @Send quoting_socket
      (at_state chmod_chmod (CSftpChmodOpData_new scenario_command))
      scenario_session
    = (reply, at_state chmod_chmod (CSftpChmodOpData_new scenario_command), s')
    ∧ reply = FZ_REPLY_WOULDBLOCK
    ∧ events s'
      = [EvUpdateFile (currentServer_ scenario_session) home_u "a.txt" false
           CDirectoryCache.unknown;
         EvSendCommand
           ("chmod 755 "
            +:+ String dquote ("a.txt" +:+ String dquote EmptyString))]
    ∧ result_ s' = result_ scenario_session
    ∧ currentServer_ s' = currentServer_ scenario_session.
Proof.
  apply (@C7_cache_is_invalidated_before_sending quoting_socket
           (at_state chmod_chmod (CSftpChmodOpData_new scenario_command))
           scenario_session).
  reflexivity.
Defined.

(** C8: in the init state, [Send] logs one status message that names the
    file and the permission to be set, asks the control socket to change
    to the command's path, moves to the waitcwd state and returns
    [FZ_REPLY_CONTINUE]; the message and the directory change are all it
    asks for. *)
Theorem C8_init_announces_and_delegates `{CSftpControlSocket}
    (this : CSftpChmodOpData) (s : Session) :
  opState this = chmod_init →
  let path := CChmodCommand.GetPath (command_ this) in
  let notice := EvLog logmsg.status "Setting permissions of '%s' to '%s'"
                  [CServerPath.FormatFilename path
                     (CChmodCommand.GetFile (command_ this)) false;
                   CChmodCommand.GetPermission (command_ this)] in
  ∃ s', Send this s
        = (FZ_REPLY_CONTINUE,
           {| opData := {| opState := chmod_waitcwd |};
              command_ := command_ this;
              useAbsolute_ := useAbsolute_ this |},
           s')
        ∧ events s' = events s ++ [notice; EvChangeDir path]
        ∧ length (List.filter is_status_log [notice; EvChangeDir path]) = 1%nat
        ∧ result_ s' = result_ s
        ∧ currentServer_ s' = currentServer_ s.
Proof.
  intros Hstate path notice.
  eexists. split.
  - run_op. rewrite Hstate. cbn. reflexivity.
  - cbn. rewrite <- app_assoc. repeat split.
Qed.

Lemma C8_init_announces_and_delegates_witness :
  ∃ s',
    @Send quoting_socket (CSftpChmodOpData_new scenario_command)
      scenario_session
    = (FZ_REPLY_CONTINUE,
       at_state chmod_waitcwd (CSftpChmodOpData_new scenario_command), s')
    ∧ events s'
      = [EvLog logmsg.status "Setting permissions of '%s' to '%s'"
           ["/home/u/a.txt"; "755"];
         EvChangeDir home_u]
    ∧ length (List.filter is_status_log
                [EvLog logmsg.status "Setting permissions of '%s' to '%s'"
                   ["/home/u/a.txt"; "755"];
                 EvChangeDir home_u]) = 1%nat
    ∧ result_ s' = result_ scenario_session
    ∧ currentServer_ s' = currentServer_ scenario_session.
Proof.
  apply (@C8_init_announces_and_delegates quoting_socket
           (CSftpChmodOpData_new scenario_command) scenario_session).
  reflexivity.
Defined.

(* ===================================================================== *)
(** ** Bit masks: reply codes, list flags, transfer flags                 *)
(* ===================================================================== *)

Lemma testbit_foldr_lor {A} (v : A → Z) (l : list A) (k : Z) :
  Z.testbit (foldr (λ c acc, Z.lor (v c) acc) 0 l) k
  = existsb (λ c, Z.testbit (v c) k) l.
Proof.
  induction l as [|c l IH]; cbn [foldr existsb].
  - apply Z.bits_0.
  - by rewrite Z.lor_spec, IH.
Qed.

Lemma land_pow2_eq_0 (x i : Z) :
  0 ≤ i → Z.land x (2 ^ i) = 0 ↔ Z.testbit x i = false.
Proof.
  intros Hi. split.
  - intros H. apply (f_equal (λ y, Z.testbit y i)) in H.
    rewrite Z.land_spec, Z.bits_0, Z.pow2_bits_true in H by assumption.
    by rewrite andb_true_r in H.
  - intros H. apply Z.bits_inj'. intros k Hk.
    rewrite Z.land_spec, Z.bits_0, Z.pow2_bits_eqb by assumption.
    destruct (Z.eqb_spec i k) as [->|_]; [by rewrite H | apply andb_false_r].
Qed.

Lemma land_superset (a b v : Z) :
  Z.land b v = v → Z.land (Z.lor a b) v = v.
Proof.
  intros H. apply Z.bits_inj'. intros k _.
  apply (f_equal (λ y, Z.testbit y k)) in H.
  rewrite Z.land_spec in H. rewrite Z.land_spec, Z.lor_spec.
  destruct (Z.testbit a k), (Z.testbit b k), (Z.testbit v k);
    try reflexivity; discriminate H.
Qed.

Lemma land_lor_same (v b : Z) : Z.land (Z.lor v b) v = v.
Proof.
  apply Z.bits_inj'. intros k _. rewrite Z.land_spec, Z.lor_spec.
  destruct (Z.testbit v k), (Z.testbit b k); reflexivity.
Qed.

Lemma compose_contains (cats : list ReplyCategory) (c : ReplyCategory) :
  c ∈ cats →
  Z.land (compose cats) (category_value c) = category_value c.
Proof.
  induction 1 as [c cats|c d cats _ IH]; cbn [compose foldr]; unfold combine.
  - apply land_lor_same.
  - apply land_superset, IH.
Qed.

Lemma compose_bit_member (cats : list ReplyCategory) (c : ReplyCategory)
    (k : Z) :
  Z.testbit (category_value c) k = true →
  (∀ d, Z.testbit (category_value d) k = true → d = c) →
  Z.land (compose cats) (category_value c) = category_value c →
  c ∈ cats.
Proof.
  intros Hk Hunique H.
  apply (f_equal (λ y, Z.testbit y k)) in H.
  rewrite Z.land_spec, Hk, andb_true_r in H.
  unfold compose, combine in H. change FZ_REPLY_OK with 0 in H.
  rewrite (testbit_foldr_lor category_value) in H.
  apply existsb_exists in H as (d & Hin & Hd).
  apply Hunique in Hd as ->. by apply list_elem_of_In.
Qed.

(** Every category other than success and the generic error has a bit of
    its own that no other category's value contains. *)
Lemma category_own_bit (c : ReplyCategory) :
  c ≠ cat_ok → c ≠ cat_error →
  ∃ k, Z.testbit (category_value c) k = true
       ∧ ∀ d, Z.testbit (category_value d) k = true → d = c.
Proof.
  intros Hok Herr.
  destruct c; try contradiction;
    [ exists 0 | exists 2 | exists 3 | exists 4 | exists 5 | exists 6
    | exists 7 | exists 8 | exists 9 | exists 10 | exists 11 | exists 12
    | exists 13 | exists 14 | exists 15 | exists 16 ];
    (split; [reflexivity|]);
    intros d; destruct d; vm_compute; (reflexivity || discriminate).
Qed.

(** X1: in a reply code composed by OR from categories, the test
    [(code & FZ_REPLY_X) == FZ_REPLY_X] for a category X other than
    success and the generic error holds exactly when X is one of the
    composed categories. *)
Theorem reply_category_test_is_exact
    (cats : list ReplyCategory) (c : ReplyCategory) :
  c ≠ cat_ok → c ≠ cat_error →
  (Z.land (compose cats) (category_value c) =? category_value c) = true
  ↔ c ∈ cats.
Proof.
  intros Hok Herr. rewrite Z.eqb_eq. split.
  - destruct (category_own_bit c Hok Herr) as (k & Hk & Hunique).
    by apply (compose_bit_member cats c k).
  - apply compose_contains.
Qed.

Lemma reply_category_test_is_exact_witness :
  cat_canceled ≠ cat_ok ∧ cat_canceled ≠ cat_error
  ∧ ((Z.land (compose [cat_disconnected; cat_canceled])
        (category_value cat_canceled) =? category_value cat_canceled) = true
     ↔ cat_canceled ∈ [cat_disconnected; cat_canceled]).
Proof.
  split; [discriminate|]. split; [discriminate|].
  apply (reply_category_test_is_exact [cat_disconnected; cat_canceled]
           cat_canceled); discriminate.
Defined.

Lemma land_ones_fixed_iff (v n : Z) :
  0 ≤ n → Z.land v (Z.ones n) = v ↔ 0 ≤ v < 2 ^ n.
Proof.
  intros Hn. rewrite Z.land_ones by assumption. split.
  - intros <-. apply Z.mod_pos_bound. by apply Z.pow_pos_nonneg.
  - intros Hv. by apply Z.mod_small.
Qed.

(** X2: a reply code composed from categories is never negative and stays
    below [0x20000]: it fits the [int] the functions return, and no
    composition reaches a bit above the not-found bit. *)
Theorem composed_reply_fits_seventeen_bits (cats : list ReplyCategory) :
  0 ≤ compose cats < 0x20000.
Proof.
  change 0x20000 with (2 ^ 17). apply land_ones_fixed_iff; [lia|].
  induction cats as [|c cats IH]; [reflexivity|].
  cbn [compose foldr]. fold (compose cats). unfold combine.
  rewrite Z.land_lor_distr_l, IH. f_equal. destruct c; reflexivity.
Qed.

(** X3: a composition is plain success, [FZ_REPLY_OK], exactly when
    nothing but success was composed. *)
Theorem composed_reply_ok_iff_all_ok (cats : list ReplyCategory) :
  compose cats = FZ_REPLY_OK ↔ ∀ c, c ∈ cats → c = cat_ok.
Proof.
  induction cats as [|c cats IH]; cbn [compose foldr].
  - split; [intros _ c Hc; by apply elem_of_nil in Hc | reflexivity].
  - fold (compose cats). unfold combine. change FZ_REPLY_OK with 0 in *.
    rewrite Z.lor_eq_0_iff, IH. split.
    + intros [Hc Hall] d Hd. apply elem_of_cons in Hd as [->|Hd]; [|auto].
      destruct c; (reflexivity || discriminate Hc).
    + intros Hall. split.
      * rewrite (Hall c); [reflexivity | apply elem_of_cons; auto].
      * intros d Hd. apply Hall, elem_of_cons. auto.
Qed.

(** X4: the list flags are independent bits: on a list command whose
    flags were built by or-ing a set of flags, the test
    [GetFlags() & LIST_FLAG_X] succeeds exactly for the flags of the
    set. *)
Theorem list_flags_are_independent
    (path : CServerPath.t) (subDir : wstring) (fs : list ListFlag)
    (f : ListFlag) :
  has_list_flag (CListCommand.mk path subDir (list_flags fs)) f = true
  ↔ f ∈ fs.
Proof.
  unfold has_list_flag, CListCommand.GetFlags. cbn [CListCommand.m_flags].
  rewrite negb_true_iff, Z.eqb_neq.
  assert (Hbit : ∃ i, 0 ≤ i ∧ list_flag_value f = 2 ^ i
                      ∧ ∀ g, Z.testbit (list_flag_value g) i = true → g = f).
  { destruct f; [exists 0 | exists 1 | exists 2 | exists 3 | exists 4];
      (split; [lia|]); (split; [reflexivity|]);
      intros g; destruct g; vm_compute; (reflexivity || discriminate). }
  destruct Hbit as (i & Hi & Hv & Hunique). rewrite Hv.
  rewrite land_pow2_eq_0, not_false_iff_true by assumption.
  unfold list_flags. rewrite (testbit_foldr_lor list_flag_value).
  rewrite existsb_exists. split.
  - intros (g & Hin & Hg). apply Hunique in Hg as ->.
    by apply list_elem_of_In.
  - intros Hin. exists f. split; [by apply list_elem_of_In|].
    rewrite Hv. by apply Z.pow2_bits_true.
Qed.

Lemma unsigned_short_mask (v : Z) :
  is_unsigned_short v ↔ Z.land v 0xffff = v.
Proof.
  unfold is_unsigned_short. change 0xffff with (Z.ones 16).
  change 65536 with (2 ^ 16). symmetry. by apply land_ones_fixed_iff.
Qed.

Lemma testbit_disjoint (f g k : Z) :
  Z.land f g = 0 → Z.testbit f k && Z.testbit g k = false.
Proof. intros H. by rewrite <- Z.land_spec, H, Z.bits_0. Qed.

Lemma testbit_subset (f g k : Z) :
  Z.land f g = g → Z.testbit g k = true → Z.testbit f k = true.
Proof.
  intros H Hg. apply (f_equal (λ y, Z.testbit y k)) in H.
  rewrite Z.land_spec, Hg, andb_true_r in H. exact H.
Qed.

Lemma and_download_testbit (flags : Z) :
  transfer_flags.and flags transfer_flags.download = Z.testbit flags 4.
Proof.
  unfold transfer_flags.and, transfer_flags.download. change 0x10 with (2 ^ 4).
  destruct (Z.testbit flags 4) eqn:Hbit.
  - apply negb_true_iff, Z.eqb_neq. rewrite land_pow2_eq_0 by lia.
    by rewrite Hbit.
  - apply negb_false_iff, Z.eqb_eq. by apply land_pow2_eq_0.
Qed.

(** X5: the flag operators stay within [unsigned short], and what
    [operator-] took away is gone while what [operator|] added is there:
    after [lhs - rhs] the test [& rhs] fails, and after [lhs | rhs] it
    succeeds unless [rhs] is [none]. *)
Theorem transfer_flag_operators_set_and_clear (lhs rhs : Z) :
  transfer_flags.and (transfer_flags.minus lhs rhs) rhs = false
  ∧ transfer_flags.and (transfer_flags.or lhs rhs) rhs
    = negb (transfer_flags.not rhs)
  ∧ is_unsigned_short (transfer_flags.minus lhs rhs)
  ∧ (is_unsigned_short lhs → is_unsigned_short rhs →
     is_unsigned_short (transfer_flags.or lhs rhs))
  ∧ (is_unsigned_short lhs →
     transfer_flags.minus lhs rhs ≤ lhs).
Proof.
  unfold transfer_flags.and, transfer_flags.or, transfer_flags.minus,
    transfer_flags.not.
  split; [|split; [|split; [|split]]].
  - apply negb_false_iff, Z.eqb_eq, Z.bits_inj'. intros k Hk.
    rewrite !Z.land_spec, Z.lnot_spec, Z.bits_0 by assumption.
    destruct (Z.testbit rhs k); [|apply andb_false_r].
    by rewrite andb_false_r.
  - by rewrite Z.lor_comm, land_lor_same.
  - apply unsigned_short_mask. rewrite <- Z.land_assoc.
    by rewrite Z.land_diag.
  - intros Hl%unsigned_short_mask Hr%unsigned_short_mask.
    apply unsigned_short_mask. by rewrite Z.land_lor_distr_l, Hl, Hr.
  - intros [Hl _]. apply (Z.ldiff_le _ lhs); [assumption|].
    apply Z.bits_inj'. intros k Hk.
    rewrite Z.ldiff_spec, !Z.land_spec, Z.bits_0.
    destruct (Z.testbit lhs k); [apply andb_false_r | reflexivity].
Qed.

(** X6: adding flags and taking them away again are inverse to each
    other: for an [unsigned short] value [f], [(f | g) - g] is [f] when
    [f] has none of the bits of [g], and [(f - g) | g] is [f] when [f] has
    all of them. *)
Theorem transfer_flag_set_then_clear_round_trip (f g : Z) :
  is_unsigned_short f →
  (Z.land f g = 0 →
   transfer_flags.minus (transfer_flags.or f g) g = f)
  ∧ (Z.land f g = g →
     transfer_flags.or (transfer_flags.minus f g) g = f).
Proof.
  intros Hf%unsigned_short_mask.
  unfold transfer_flags.or, transfer_flags.minus. split; intros Hfg.
  - rewrite <- Hf at 2. f_equal.
    apply Z.bits_inj'. intros k Hk.
    rewrite Z.land_spec, Z.lor_spec, Z.lnot_spec by assumption.
    pose proof (testbit_disjoint f g k Hfg).
    destruct (Z.testbit f k), (Z.testbit g k); try reflexivity; discriminate.
  - apply Z.bits_inj'. intros k Hk.
    apply (f_equal (λ y, Z.testbit y k)) in Hf. rewrite Z.land_spec in Hf.
    rewrite Z.lor_spec, !Z.land_spec, Z.lnot_spec by assumption.
    pose proof (testbit_subset f g k Hfg) as Hsub.
    destruct (Z.testbit f k), (Z.testbit g k), (Z.testbit 0xffff k);
      cbn in *; try reflexivity; try discriminate Hf;
      specialize (Hsub eq_refl); discriminate Hsub.
Qed.

Lemma transfer_flag_set_then_clear_round_trip_witness :
  is_unsigned_short transfer_flags.download
  ∧ transfer_flags.minus
      (transfer_flags.or transfer_flags.download transfer_flags.fsync)
      transfer_flags.fsync
    = transfer_flags.download.
Proof.
  assert (H : is_unsigned_short transfer_flags.download)
    by (vm_compute; split; [discriminate | reflexivity]).
  split; [exact H|].
  apply (proj1 (transfer_flag_set_then_clear_round_trip
                  transfer_flags.download transfer_flags.fsync H)).
  reflexivity.
Defined.

(** X7: [Download()] looks at the download bit alone: or-ing in or taking
    away flags that do not contain it leaves the answer as it was, or-ing
    in [download] makes it true and taking [download] away makes it
    false. *)
Theorem Download_depends_on_its_bit_only
    (reader : reader_factory_holder) (writer : writer_factory_holder)
    (remotePath : CServerPath.t) (remoteFile extraFlags : wstring)
    (persistentState : string) (flags other : Z) :
  Z.land other transfer_flags.download = 0 →
  let command := CFileTransferCommand.mk reader writer remotePath remoteFile
                   extraFlags persistentState in
  CFileTransferCommand.Download (command (transfer_flags.or flags other))
  = CFileTransferCommand.Download (command flags)
  ∧ CFileTransferCommand.Download (command (transfer_flags.minus flags other))
    = CFileTransferCommand.Download (command flags)
  ∧ CFileTransferCommand.Download
      (command (transfer_flags.or flags transfer_flags.download)) = true
  ∧ CFileTransferCommand.Download
      (command (transfer_flags.minus flags transfer_flags.download)) = false.
Proof.
  intros Hother command. unfold CFileTransferCommand.Download.
  cbn [CFileTransferCommand.flags_ command].
  rewrite !and_download_testbit.
  change transfer_flags.download with (2 ^ 4) in Hother.
  apply land_pow2_eq_0 in Hother; [|lia].
  unfold transfer_flags.or, transfer_flags.minus.
  rewrite !Z.lor_spec, !Z.land_spec, !Z.lnot_spec by lia. rewrite Hother.
  change (Z.testbit transfer_flags.download 4) with true.
  change (Z.testbit 0xffff 4) with true.
  destruct (Z.testbit flags 4); repeat split.
Qed.

Lemma Download_depends_on_its_bit_only_witness :
  Z.land transfer_flags.protocol_reserved_max transfer_flags.download = 0
  ∧ CFileTransferCommand.Download
      (CFileTransferCommand.mk {| reader_source := None |}
         {| writer_target := Some "a.txt" |} home_u "a.txt" EmptyString
         EmptyString
         (transfer_flags.or transfer_flags.download
            transfer_flags.protocol_reserved_max))
    = CFileTransferCommand.Download
        (CFileTransferCommand.mk {| reader_source := None |}
           {| writer_target := Some "a.txt" |} home_u "a.txt" EmptyString
           EmptyString transfer_flags.download).
Proof.
  split; [reflexivity|].
  apply (Download_depends_on_its_bit_only {| reader_source := None |}
           {| writer_target := Some "a.txt" |} home_u "a.txt" EmptyString
           EmptyString transfer_flags.download
           transfer_flags.protocol_reserved_max).
  reflexivity.
Defined.

(* ===================================================================== *)
(** ** The chmod operation under arbitrary sequences of calls             *)
(* ===================================================================== *)

(** What one call does: nothing at all, or one of the three transitions
    of the operation. *)
Lemma call_cases `{CSftpControlSocket} (c : Call) (this : CSftpChmodOpData)
    (s : Session) :
  ∃ r this' s', call c this s = (r, this', s')
    ∧ ((this' = this ∧ s' = s ∧ (c = CallSend → opState this ≠ chmod_init
                                               ∧ opState this ≠ chmod_chmod))
       ∨ (c = CallSend ∧ opState this = chmod_init
          ∧ this' = at_state chmod_waitcwd this
          ∧ s' = emit (EvChangeDir (CChmodCommand.GetPath (command_ this)))
                   (emit (chmod_notice (command_ this)) s))
       ∨ (c = CallSend ∧ opState this = chmod_chmod ∧ this' = this
          ∧ s' = emit (EvSendCommand
                         (chmod_line (command_ this) (useAbsolute_ this)))
                   (emit (chmod_invalidate (currentServer_ s) (command_ this))
                      s))
       ∨ (∃ prevResult previous,
            c = CallSubcommandResult prevResult previous
            ∧ opState this = chmod_waitcwd ∧ s' = s
            ∧ this' = {| opData := {| opState := chmod_chmod |};
                         command_ := command_ this;
                         useAbsolute_ :=
                           if prevResult =? FZ_REPLY_OK
                           then useAbsolute_ this else true |})).
Proof.
  destruct c as [| |prevResult previous]; unfold call.
  - run_op. destruct (Z.eqb_spec (opState this) chmod_init) as [Hi|Hi].
    { eexists _, _, _. split; [reflexivity|]. right. left. auto. }
    destruct (Z.eqb_spec (opState this) chmod_chmod) as [Hc|Hc].
    { eexists _, _, _. split; [reflexivity|]. right. right. left. auto. }
    eexists _, _, _. split; [reflexivity|]. left. auto.
  - run_op. eexists _, _, _. split; [reflexivity|]. left.
    repeat split; discriminate.
  - run_op. destruct (Z.eqb_spec (opState this) chmod_waitcwd) as [Hw|Hw].
    + destruct (prevResult =? FZ_REPLY_OK) eqn:Hprev; cbn;
        (eexists _, _, _; split; [reflexivity|]);
        right; right; right; exists prevResult, previous; rewrite Hprev;
        repeat split; (assumption || reflexivity).
    + eexists _, _, _. split; [reflexivity|]. left.
      repeat split; discriminate.
Qed.

Lemma after_calls_cons `{CSftpControlSocket} (c : Call) (cs : list Call)
    (this : CSftpChmodOpData) (s : Session) :
  after_calls (c :: cs) this s
  = after_calls cs (call c this s).1.2 (call c this s).2.
Proof. cbn [after_calls]. by destruct (call c this s) as [[r this'] s']. Qed.

(** One call leaves the command of the operation, and the stored reply
    and the server of the session, as they are. *)
Lemma call_keeps_command_and_session `{CSftpControlSocket} (c : Call)
    (this : CSftpChmodOpData) (s : Session) :
  command_ (call c this s).1.2 = command_ this
  ∧ result_ (call c this s).2 = result_ s
  ∧ currentServer_ (call c this s).2 = currentServer_ s.
Proof.
  destruct (call_cases c this s) as (r & this' & s' & -> & Hcase). cbn.
  destruct Hcase as [(-> & -> & _)|[(_ & _ & -> & ->)|[(_ & _ & -> & ->)
                    |(prevResult & previous & _ & _ & -> & ->)]]];
    repeat split.
Qed.

(** X10: whatever the engine calls and in whatever order, the operation
    never goes back: the command stays the one it was constructed with,
    the state never decreases, and absolute addressing, once chosen, is
    never given up. *)
Theorem calls_never_undo_progress `{CSftpControlSocket} (cs : list Call)
    (this : CSftpChmodOpData) (s : Session) :
  command_ (after_calls cs this s).1 = command_ this
  ∧ opState this ≤ opState (after_calls cs this s).1
  ∧ (useAbsolute_ this = true →
     useAbsolute_ (after_calls cs this s).1 = true).
Proof.
  revert this s. induction cs as [|c cs IH]; intros this s.
  - cbn. repeat split; [lia | auto].
  - rewrite after_calls_cons.
    destruct (call_cases c this s) as (r & this' & s' & -> & Hcase). cbn.
    destruct (IH this' s') as (Hcmd & Hstate & Habs).
    rewrite Hcmd.
    destruct Hcase as [(-> & _)|[(_ & Hi & -> & _)|[(_ & _ & -> & _)
                      |(prevResult & previous & _ & Hw & _ & ->)]]];
      cbn in *; unfold chmod_init, chmod_waitcwd, chmod_chmod in *;
      (split; [reflexivity|]); (split; [lia|]);
      intros Hthis; apply Habs; try assumption.
    rewrite Hthis. by destruct (prevResult =? FZ_REPLY_OK).
Qed.

(** X11: the operation never touches what it does not own: no sequence
    of calls changes the stored reply or the server of the session, the
    requests already made stay as they are with new ones added behind
    them, and only [Send] makes requests at all. *)
Theorem calls_only_add_requests `{CSftpControlSocket} (cs : list Call)
    (this : CSftpChmodOpData) (s : Session) :
  result_ (after_calls cs this s).2 = result_ s
  ∧ currentServer_ (after_calls cs this s).2 = currentServer_ s
  ∧ events s `prefix_of` events (after_calls cs this s).2
  ∧ (CallSend ∉ cs → (after_calls cs this s).2 = s).
Proof.
  revert this s. induction cs as [|c cs IH]; intros this s.
  - cbn. repeat split; done.
  - rewrite after_calls_cons.
    destruct (call_cases c this s) as (r & this' & s' & -> & Hcase). cbn.
    destruct (IH this' s') as (Hres & Hserver & Hprefix & Hquiet).
    rewrite Hres, Hserver.
    assert (Hstep : result_ s' = result_ s
                    ∧ currentServer_ s' = currentServer_ s
                    ∧ events s `prefix_of` events s'
                    ∧ (c ≠ CallSend → s' = s)).
    { destruct Hcase as [(_ & -> & _)|[(-> & _ & _ & ->)|[(-> & _ & _ & ->)
                        |(prevResult & previous & _ & _ & -> & _)]]];
        cbn; repeat split; try done.
      - rewrite <- app_assoc. by apply prefix_app_r.
      - rewrite <- app_assoc. by apply prefix_app_r. }
    destruct Hstep as (-> & -> & Hpre & Hsame).
    repeat split; [by etrans|].
    intros Hnot. rewrite Hquiet, Hsame; [reflexivity| |];
      intros Hin; apply Hnot; [subst c; by left | by right].
Qed.

Lemma concat_replicate_snoc {A} (n : nat) (l : list A) :
  concat (replicate n l) ++ l = concat (replicate (S n) l).
Proof.
  induction n as [|n IH]; cbn [replicate concat] in *.
  - by rewrite app_nil_r.
  - by rewrite <- app_assoc, IH.
Qed.

(** The requests made so far have the shape [chmod_requests] describes,
    the line being sent in the chmod state only and relative addressing
    being in force before that state; one call keeps it so. *)
Lemma call_keeps_requests_shape `{CSftpControlSocket} (c : Call)
    (before : list Event) (this : CSftpChmodOpData) (s : Session) (n : nat) :
  events s = before ++ chmod_requests (currentServer_ s) this n →
  (opState this = chmod_init ∨ opState this = chmod_waitcwd
   ∨ opState this = chmod_chmod) →
  (opState this ≠ chmod_chmod → n = 0%nat ∧ useAbsolute_ this = false) →
  ∃ n',
    events (call c this s).2
    = before ++ chmod_requests (currentServer_ (call c this s).2)
                  (call c this s).1.2 n'
    ∧ (opState (call c this s).1.2 = chmod_init
       ∨ opState (call c this s).1.2 = chmod_waitcwd
       ∨ opState (call c this s).1.2 = chmod_chmod)
    ∧ (opState (call c this s).1.2 ≠ chmod_chmod →
       n' = 0%nat ∧ useAbsolute_ (call c this s).1.2 = false).
Proof.
  intros Hshape Hstate Hearly.
  destruct (call_cases c this s) as (r & this' & s' & -> & Hcase). cbn.
  destruct Hcase as [(-> & -> & _)|[(_ & Hi & -> & ->)|[(_ & Hc & -> & ->)
                    |(prevResult & previous & _ & Hw & -> & ->)]]].
  - exists n. auto.
  - destruct Hearly as [-> Hrel]; [rewrite Hi; discriminate|].
    exists 0%nat. cbn. unfold chmod_requests in *. rewrite Hi in Hshape.
    cbn in Hshape |- *. rewrite Hshape, <- !app_assoc.
    repeat split; auto.
  - exists (S n). cbn. unfold chmod_requests in *. rewrite Hc in Hshape |- *.
    cbn in Hshape |- *. rewrite Hshape, <- !app_assoc. cbn.
    split; [|split; [auto | by intros []]].
    rewrite concat_replicate_snoc. reflexivity.
  - destruct Hearly as [-> Hrel]; [rewrite Hw; discriminate|].
    exists 0%nat. unfold chmod_requests in *. rewrite Hw in Hshape.
    cbn in Hshape |- *. rewrite Hshape.
    split; [reflexivity|]. split; [auto | by intros []].
Qed.

(** X12: from its construction on, and whatever is called, the requests
    of the operation are: none while it is in the init state; afterwards
    one status message and one directory change, then, in the chmod state
    only, the cache update and the protocol line, each time [Send] was
    called there and each time with the same line.  The state stays one
    of the three, and addressing is relative until the chmod state. *)
Theorem requests_of_a_new_operation `{CSftpControlSocket} (cs : list Call)
    (command : CChmodCommand.t) (s : Session) :
  let this' := (after_calls cs (CSftpChmodOpData_new command) s).1 in
  let s' := (after_calls cs (CSftpChmodOpData_new command) s).2 in
  ∃ n, events s' = events s ++ chmod_requests (currentServer_ s) this' n
       ∧ command_ this' = command
       ∧ (opState this' = chmod_init ∨ opState this' = chmod_waitcwd
          ∨ opState this' = chmod_chmod)
       ∧ (opState this' ≠ chmod_chmod → n = 0%nat ∧ useAbsolute_ this' = false)
       ∧ length (List.filter is_status_log
                   (chmod_requests (currentServer_ s) this' n))
         = (if opState this' =? chmod_init then 0%nat else 1%nat)
       ∧ length (List.filter is_change_dir
                   (chmod_requests (currentServer_ s) this' n))
         = (if opState this' =? chmod_init then 0%nat else 1%nat).
Proof.
  intros this' s'. subst this' s'.
  assert (Hcount : ∀ server this n,
            length (List.filter is_status_log (chmod_requests server this n))
            = (if opState this =? chmod_init then 0%nat else 1%nat)
            ∧ length (List.filter is_change_dir
                        (chmod_requests server this n))
              = (if opState this =? chmod_init then 0%nat else 1%nat)).
  { intros server this n. unfold chmod_requests.
    destruct (opState this =? chmod_init); [split; reflexivity|].
    cbn. induction n as [|n IH]; [split; reflexivity|exact IH]. }
  assert (Hgen : ∀ this s0 n,
            events s0 = events s ++ chmod_requests (currentServer_ s0) this n →
            (opState this = chmod_init ∨ opState this = chmod_waitcwd
             ∨ opState this = chmod_chmod) →
            (opState this ≠ chmod_chmod →
             n = 0%nat ∧ useAbsolute_ this = false) →
            ∃ n', command_ (after_calls cs this s0).1 = command_ this
                  ∧ currentServer_ (after_calls cs this s0).2
                    = currentServer_ s0
                  ∧ events (after_calls cs this s0).2
                  = events s ++ chmod_requests
                                  (currentServer_ (after_calls cs this s0).2)
                                  (after_calls cs this s0).1 n'
                  ∧ (opState (after_calls cs this s0).1 = chmod_init
                     ∨ opState (after_calls cs this s0).1 = chmod_waitcwd
                     ∨ opState (after_calls cs this s0).1 = chmod_chmod)
                  ∧ (opState (after_calls cs this s0).1 ≠ chmod_chmod →
                     n' = 0%nat
                     ∧ useAbsolute_ (after_calls cs this s0).1 = false)).
  { induction cs as [|c cs IH]; intros this s0 n Hshape Hstate Hearly.
    - exists n. auto.
    - rewrite after_calls_cons.
      destruct (call_keeps_requests_shape c (events s) this s0 n
                  Hshape Hstate Hearly) as (n' & Hshape' & Hstate' & Hearly').
      destruct (call_keeps_command_and_session c this s0)
        as (Hcmd & _ & Hserver).
      destruct (IH _ _ n' Hshape' Hstate' Hearly') as (n'' & Hfinal).
      exists n''. by rewrite <- Hcmd, <- Hserver. }
  destruct (Hgen (CSftpChmodOpData_new command) s 0%nat)
    as (n & Hcmd & Hserver & Hshape & Hstate & Hearly).
  { by rewrite app_nil_r. }
  { by left. }
  { auto. }
  exists n.
  rewrite Hserver in Hshape.
  destruct (Hcount (currentServer_ s)
              (after_calls cs (CSftpChmodOpData_new command) s).1 n)
    as [Hlogs Hdirs].
  split; [exact Hshape|]. split; [exact Hcmd|]. split; [exact Hstate|].
  split; [exact Hearly|]. split; [exact Hlogs | exact Hdirs].
Qed.

(** X13: the operation does not switch to absolute addressing on its
    own: if it addressed relatively before a sequence of calls and
    absolutely after it, then some [SubcommandResult] of the sequence
    reported a reply other than [FZ_REPLY_OK]. *)
Theorem absolute_addressing_needs_a_failed_cwd `{CSftpControlSocket}
    (cs : list Call) (this : CSftpChmodOpData) (s : Session) :
  useAbsolute_ this = false →
  useAbsolute_ (after_calls cs this s).1 = true →
  ∃ prevResult previous,
    CallSubcommandResult prevResult previous ∈ cs
    ∧ prevResult ≠ FZ_REPLY_OK.
Proof.
  revert this s. induction cs as [|c cs IH]; intros this s Hrel Habs.
  - cbn in Habs. congruence.
  - rewrite after_calls_cons in Habs.
    destruct (call_cases c this s) as (r & this' & s' & Hcall & Hcase).
    rewrite Hcall in Habs. cbn in Habs.
    destruct (useAbsolute_ this') eqn:Hstep.
    + destruct Hcase as [(-> & _)|[(_ & _ & -> & _)|[(_ & _ & -> & _)
                        |(prevResult & previous & -> & _ & _ & ->)]]];
        cbn in Hstep; try congruence.
      exists prevResult, previous. split; [by left|].
      intros ->. cbn in Hstep. congruence.
    + destruct (IH this' s' Hstep Habs) as (prevResult & previous & Hin & Hne).
      exists prevResult, previous. split; [by right | exact Hne].
Qed.

Lemma absolute_addressing_needs_a_failed_cwd_witness :
  ∃ prevResult previous,
    CallSubcommandResult prevResult previous
    ∈ [CallSend; CallSubcommandResult FZ_REPLY_ERROR {| opState := 2 |};
       CallSend]
    ∧ prevResult ≠ FZ_REPLY_OK.
Proof.
  apply (@absolute_addressing_needs_a_failed_cwd quoting_socket
           [CallSend; CallSubcommandResult FZ_REPLY_ERROR {| opState := 2 |};
            CallSend]
           (CSftpChmodOpData_new scenario_command) scenario_session);
    reflexivity.
Defined.

(** X14: the chmod state is final: once there, no call changes the
    operation any more, so each further [Send] hands the very same line
    to the socket, and the operation neither logs nor changes directory
    again. *)
Theorem chmod_state_is_final `{CSftpControlSocket} (cs : list Call)
    (this : CSftpChmodOpData) (s : Session) :
  opState this = chmod_chmod →
  (after_calls cs this s).1 = this
  ∧ ∃ n, events (after_calls cs this s).2
         = events s
           ++ concat (replicate n
                        [chmod_invalidate (currentServer_ s) (command_ this);
                         EvSendCommand
                           (chmod_line (command_ this) (useAbsolute_ this))])
         ∧ (n ≤ length cs)%nat.
Proof.
  intros Hstate. revert s. induction cs as [|c cs IH]; intros s.
  - split; [reflexivity|]. exists 0%nat. cbn. by rewrite app_nil_r.
  - rewrite after_calls_cons.
    destruct (call_cases c this s) as (r & this' & s' & -> & Hcase). cbn.
    assert (Hstep : this' = this
                    ∧ currentServer_ s' = currentServer_ s
                    ∧ ∃ k, (k ≤ 1)%nat
                           ∧ events s'
                             = events s
                               ++ concat
                                    (replicate k
                                       [chmod_invalidate (currentServer_ s)
                                          (command_ this);
                                        EvSendCommand
                                          (chmod_line (command_ this)
                                             (useAbsolute_ this))])).
    { destruct Hcase as [(-> & -> & _)|[(_ & Hi & _)|[(_ & _ & -> & ->)
                        |(prevResult & previous & _ & Hw & _)]]].
      - repeat split. exists 0%nat. split; [lia|]. cbn. by rewrite app_nil_r.
      - rewrite Hstate in Hi. discriminate Hi.
      - repeat split. exists 1%nat. split; [lia|]. cbn.
        by rewrite <- app_assoc.
      - rewrite Hstate in Hw. discriminate Hw. }
    destruct Hstep as (-> & Hserver & k & Hk & Hevents).
    destruct (IH s') as (Hthis & n & Hn & Hlen).
    split; [exact Hthis|]. exists (k + n)%nat.
    rewrite Hn, Hevents, Hserver, <- app_assoc, replicate_add, concat_app.
    split; [reflexivity | cbn; lia].
Qed.

Lemma chmod_state_is_final_witness :
  (@after_calls quoting_socket
     [CallSend; CallSubcommandResult FZ_REPLY_OK {| opState := 0 |};
      CallParseResponse; CallSend]
     (at_state chmod_chmod (CSftpChmodOpData_new scenario_command))
     scenario_session).1
  = at_state chmod_chmod (CSftpChmodOpData_new scenario_command).
Proof.
  apply (@chmod_state_is_final quoting_socket
           [CallSend; CallSubcommandResult FZ_REPLY_OK {| opState := 0 |};
            CallParseResponse; CallSend]
           (at_state chmod_chmod (CSftpChmodOpData_new scenario_command))
           scenario_session).
  reflexivity.
Defined.
